(** * Field parsing of the Arduino DSMR parser (src/dsmr/fields.h)

    A shallow embedding of the field-type strategies ([StringField],
    [TimestampField], [FixedField], [TimestampedFixedField], [IntField],
    [RawField]), of the records that [DEFINE_FIELD] declares and of the
    field catalog of namespace [dsmr::fields], with the properties of the
    field parsing contract proved about them. *)

From Stdlib Require Import ZArith List Ascii String Bool Arith Lia.
Import ListNotations.

(** ** Bytes, spans and results (util.h, parser.h) *)

(** A run of characters.  The half-open span [[str, end)] that every
    [parse] receives is modelled by the bytes it holds: a cursor into the
    span is the suffix that starts at it, and [end] itself is the empty
    suffix. *)
Definition bytes := list ascii.
Definition span := bytes.

(** Arduino's [String], the type of the string slots. *)
Definition WString := bytes.

(** The result type [void] of [ParseResult<void>]. *)
Definition void := Datatypes.unit.

(** Modelled from the spec: util.h, which declares the results, is not
    among the sources.  The error kinds a result carries as data. *)
Inductive ErrorKind : Type :=
| InvalidLength
| InvalidFormat
| UnitMismatch.

(** Modelled from the spec: [ParseResult<T>] of util.h, with the members
    that fields.h reads and writes ([result], [next], [err]) and the
    failing position [ctx] of a failure.  [err] is [None] on success, where
    fields.h tests [!res.err]. *)
Record ParseResult (T : Type) : Type := mkParseResult
  { result : T;
    next : span;
    err : option ErrorKind;
    ctx : span }.

Arguments mkParseResult {T} _ _ _ _.
Arguments result {T} _.
Arguments next {T} _.
Arguments err {T} _.
Arguments ctx {T} _.

(** Modelled from the spec: the setters of a result, [res.fail(kind, at)],
    [res.succeed(v)] and [res.until(nxt)]; fields.h calls the last. *)
Definition fail {T} (res : ParseResult T) (kind : ErrorKind) (at_ : span)
  : ParseResult T :=
  mkParseResult (result res) (next res) (Some kind) at_.

Definition succeed {T} (res : ParseResult T) (v : T) : ParseResult T :=
  mkParseResult v (next res) (err res) (ctx res).

Definition until {T} (res : ParseResult T) (nxt : span) : ParseResult T :=
  mkParseResult (result res) nxt (err res) (ctx res).

(** Modelled from the spec: a default-constructed result, with no error.
    Its cursor is not set; the empty suffix stands in for it, so nothing
    is stated below about the cursor of a result before [until] gave it
    one. *)
Definition new_result {T} (dflt : T) : ParseResult T :=
  mkParseResult dflt [] None [].

(** Modelled from the spec: the conversion behind every [return res;] of
    a [ParseResult<T>] from a function that returns [ParseResult<void>].
    The result carries no value payload itself: the cursor, the error and
    its position are kept, the payload is dropped. *)
Definition to_void {T} (res : ParseResult T) : ParseResult void :=
  mkParseResult tt (next res) (err res) (ctx res).

(** ** Value representation types *)

Record FixedValue : Type := mkFixedValue { _value : Z }.

(** [int_val()] of [FixedValue]. *)
Definition int_val (v : FixedValue) : Z := _value v.

(** [struct TimestampedFixedValue : public FixedValue { String timestamp; }] *)
Record TimestampedFixedValue : Type := mkTimestampedFixedValue
  { base : FixedValue;
    timestamp : WString }.

(** What [FixedField::parse] needs of the value type of its record: the
    member [_value] of [val()], to be assigned. *)
Class HasFixedValue (V : Type) : Type :=
  { get_value : V -> Z;
    set_value : Z -> V -> V }.

#[export] Instance FixedValue_HasFixedValue : HasFixedValue FixedValue :=
  {| get_value := _value;
     set_value := fun n _ => mkFixedValue n |}.

#[export] Instance TimestampedFixedValue_HasFixedValue
  : HasFixedValue TimestampedFixedValue :=
  {| get_value := fun v => _value (base v);
     set_value := fun n v => mkTimestampedFixedValue (mkFixedValue n) (timestamp v) |}.

Definition set_timestamp (t : WString) (v : TimestampedFixedValue)
  : TimestampedFixedValue :=
  mkTimestampedFixedValue (base v) t.

(** ** The record that DEFINE_FIELD declares

    [value_t fieldname; bool fieldname##_present = false;] with the
    accessors [val()] and [present()].  The static members [id] and [name]
    are in the catalog below. *)
Record FieldRecord (value_t : Type) : Type := mkFieldRecord
  { val : value_t;
    present : bool }.

Arguments mkFieldRecord {value_t} _ _.
Arguments val {value_t} _.
Arguments present {value_t} _.

(** A record as its declaration initialises it: the presence flag is
    [false]; what the slot holds is the value type's business ([initial]). *)
Definition DEFINE_FIELD_init {value_t} (initial : value_t) : FieldRecord value_t :=
  mkFieldRecord initial false.

(** Assignment through the reference [val()]. *)
Definition set_val {value_t} (v : value_t) (this : FieldRecord value_t)
  : FieldRecord value_t :=
  mkFieldRecord v (present this).

(** ** The field-type strategies

    Each [parse] takes the span and the record ([this]) and returns the
    [ParseResult<void>] with the record as the call leaves it.  The
    scanners of parser.h are parameters of the strategies that call them. *)

Module StringField.
Section WithScanner.
Variable parse_string : nat -> nat -> span -> ParseResult WString.

Definition parse (minlen maxlen : nat) (str : span) (this : FieldRecord WString)
  : ParseResult void * FieldRecord WString :=
  let res := parse_string minlen maxlen str in
  match err res with
  | None => (to_void res, set_val (result res) this)
  | Some _ => (to_void res, this)
  end.
End WithScanner.
End StringField.

Module TimestampField.
Section WithScanner.
Variable parse_string : nat -> nat -> span -> ParseResult WString.

(** [struct TimestampField : StringField<T, 13, 13>] *)
Definition parse : span -> FieldRecord WString
                   -> ParseResult void * FieldRecord WString :=
  StringField.parse parse_string 13 13.
End WithScanner.
End TimestampField.

Module FixedField.
Section WithScanner.
Variable num_parse : nat -> bytes -> span -> ParseResult Z.
Context {V : Type} `{HasFixedValue V}.

Definition parse (_unit _int_unit : bytes) (str : span) (this : FieldRecord V)
  : ParseResult void * FieldRecord V :=
  let res_float := num_parse 3 _unit str in
  match err res_float with
  | None => (to_void res_float, set_val (set_value (result res_float) (val this)) this)
  | Some _ =>
      let res_int := num_parse 0 _int_unit str in
      match err res_int with
      | None => (to_void res_int, set_val (set_value (result res_int) (val this)) this)
      | Some _ => (to_void res_float, this)
      end
  end.
End WithScanner.
End FixedField.

Module TimestampedFixedField.
Section WithScanners.
Variable parse_string : nat -> nat -> span -> ParseResult WString.
Variable num_parse : nat -> bytes -> span -> ParseResult Z.

Definition parse (_unit _int_unit : bytes) (str : span)
           (this : FieldRecord TimestampedFixedValue)
  : ParseResult void * FieldRecord TimestampedFixedValue :=
  let res := parse_string 13 13 str in
  match err res with
  | Some _ => (to_void res, this)
  | None =>
      let this' := set_val (set_timestamp (result res) (val this)) this in
      FixedField.parse num_parse _unit _int_unit (next res) this'
  end.
End WithScanners.
End TimestampedFixedField.

Module IntField.
Section WithScanner.
Variable num_parse : nat -> bytes -> span -> ParseResult Z.

Definition parse (_unit : bytes) (str : span) (this : FieldRecord Z)
  : ParseResult void * FieldRecord Z :=
  let res := num_parse 0 _unit str in
  match err res with
  | None => (to_void res, set_val (result res) this)
  | Some _ => (to_void res, this)
  end.
End WithScanner.
End IntField.

Module RawField.
Section WithConcat.
(** [concat_hack] of util.h, which is not among the sources: what it
    leaves in the String it is handed by reference, from the String as
    it was, the byte pointer and the byte count. *)
Variable concat_hack : WString -> span -> nat -> WString.

(** [concat_hack(val(), str, end - str); return ParseResult<void>().until(end);] *)
Definition parse (str : span) (this : FieldRecord WString)
  : ParseResult void * FieldRecord WString :=
  (until (new_result tt) [],
   set_val (concat_hack (val this) str (List.length str)) this).
End WithConcat.
End RawField.

(** ** The scanners of parser.h *)

(** Modelled from the spec: the scanners of parser.h read an unwrapped
    token.  How the token at the head of a span is unwrapped is a
    parameter of the scanners: the token and the cursor behind what was
    consumed, or nothing when no token starts there. *)
Definition framing := span -> option (bytes * span).

(** Modelled from the spec: the span is the payload, its delimiting
    parentheses already stripped, so the whole span is the token. *)
Definition bare : framing := fun str => Some (str, []).

(** Modelled from the spec: the token as it appears in the wire line,
    as in the two tokens of [0-1:24.2.1(150117180000W)(00473.789*m3)] of
    the comment in fields.h: the payload stands between an opening
    parenthesis and the first closing one. *)
Fixpoint until_close (str : span) : option (bytes * span) :=
  match str with
  | [] => None
  | c :: str' =>
      if Ascii.eqb c ")" then Some ([], str')
      else match until_close str' with
           | Some (tok, rest) => Some (c :: tok, rest)
           | None => None
           end
  end.

Definition parenthesised : framing := fun str =>
  match str with
  | [] => None
  | c :: str' => if Ascii.eqb c "(" then until_close str' else None
  end.

Module StringParser.
Section WithFraming.
Variable unwrap : framing.

(** Modelled from the spec: parser.h, which defines
    [StringParser::parse_string], is not among the sources.  The bounded
    string scanner accepts any unwrapped token of length in [[min, max]]
    and yields its text unchanged; it fails with InvalidLength outside
    the bounds. *)
Definition parse_string (min max : nat) (str : span) : ParseResult WString :=
  let res := new_result [] in
  match unwrap str with
  | None => fail res InvalidFormat str
  | Some (tok, rest) =>
      if (List.length tok <? min) || (max <? List.length tok)
      then fail res InvalidLength str
      else until (succeed res tok) rest
  end.
End WithFraming.
End StringParser.

(** Modelled from the spec: [NumParser] of parser.h, which is not among
    the sources; the definitions of this module are the parts of its
    number scanner. *)
Module NumParser.

(** A decimal digit, ['0'] to ['9'], and the number it stands for. *)
Definition is_digit (c : ascii) : bool :=
  (48 <=? nat_of_ascii c) && (nat_of_ascii c <=? 57).

Definition digit (c : ascii) : Z := Z.of_nat (nat_of_ascii c) - 48.

(** The longest run of digits at the head of [str], and what follows. *)
Fixpoint take_digits (str : bytes) : bytes * bytes :=
  match str with
  | [] => ([], [])
  | c :: str' =>
      if is_digit c
      then let (ds, rest) := take_digits str' in (c :: ds, rest)
      else ([], str)
  end.

(** Whether a digit is the first character of [str]. *)
Definition starts_with_digit (str : bytes) : bool :=
  match str with
  | [] => false
  | c :: _ => is_digit c
  end.

(** The number that a run of digits writes. *)
Definition decimal (ds : bytes) : Z :=
  fold_left (fun acc c => 10 * acc + digit c)%Z ds 0%Z.

(** A value as the [uint32_t] of [ParseResult<uint32_t>] holds it. *)
Definition uint32 (n : Z) : Z := (n mod 2 ^ 32)%Z.

(** What follows the number: a star and the unit label; nothing for a
    field without unit (the empty label [none]). *)
Definition unit_suffix (_unit : bytes) : bytes :=
  match _unit with
  | [] => []
  | _ :: _ => "*"%char :: _unit
  end.

(** Equality of two runs of characters. *)
Fixpoint bytes_eqb (a b : bytes) : bool :=
  match a, b with
  | [], [] => true
  | x :: a', y :: b' => Ascii.eqb x y && bytes_eqb a' b'
  | _, _ => false
  end.

(** Modelled from the spec: the number scanner of parser.h, on the
    unwrapped token.  A decimal token with at most [max_decimals]
    fraction digits and the expected trailing unit label decodes to the
    integer scaled by [10 ^ max_decimals]; a token that is not a
    well-formed number of that shape is an InvalidFormat, a number whose
    unit suffix is not the expected one a UnitMismatch. *)
Definition scan_number (max_decimals : nat) (_unit : bytes) (tok : bytes)
  : ErrorKind + Z :=
  let (int_part, after_int) := take_digits tok in
  match int_part with
  | [] => inl InvalidFormat
  | _ :: _ =>
      let '(frac_part, after_num, well_formed) :=
        match after_int with
        | [] => ([], after_int, true)
        | c :: r =>
            if Ascii.eqb c "."
            then let (fp, r') := take_digits r in
                 (fp, r', (1 <=? List.length fp) && (List.length fp <=? max_decimals))
            else ([], after_int, true)
        end in
      if well_formed
      then if bytes_eqb after_num (unit_suffix _unit)
           then inr (uint32 (decimal (int_part ++ frac_part)
                             * 10 ^ Z.of_nat (max_decimals - List.length frac_part)))
           else match after_num with
                | [] => inl UnitMismatch
                | c :: _ => if Ascii.eqb c "*" then inl UnitMismatch
                            else inl InvalidFormat
                end
      else inl InvalidFormat
  end.

Section WithFraming.
Variable unwrap : framing.

(** Modelled from the spec: [NumParser::parse] of parser.h, which is not
    among the sources: the number scanner applied to the token of the
    span, with the cursor behind the token on success. *)
Definition parse (max_decimals : nat) (_unit : bytes) (str : span)
  : ParseResult Z :=
  let res := new_result 0%Z in
  match unwrap str with
  | None => fail res InvalidFormat str
  | Some (tok, rest) =>
      match scan_number max_decimals _unit tok with
      | inl kind => fail res kind str
      | inr value => until (succeed res value) rest
      end
  end.
End WithFraming.
End NumParser.

(** A run of decimal digits. *)
Definition all_digits (ds : bytes) : Prop := forallb NumParser.is_digit ds = true.

(** Modelled from the spec: the encodings of a number token, the digits of
    the integer part, at most [max_decimals] fraction digits behind a
    point when there is one, and the unit label; with the value that the
    token denotes, rescaled by [10 ^ max_decimals]. *)
Inductive number_form (max_decimals : nat) (_unit : bytes) : bytes -> Z -> Prop :=
| number_without_point int_part :
    int_part <> [] -> all_digits int_part ->
    number_form max_decimals _unit
      (int_part ++ NumParser.unit_suffix _unit)
      (NumParser.decimal int_part * 10 ^ Z.of_nat max_decimals)
| number_with_point int_part frac_part :
    int_part <> [] -> all_digits int_part ->
    frac_part <> [] -> all_digits frac_part ->
    List.length frac_part <= max_decimals ->
    number_form max_decimals _unit
      (int_part ++ "."%char :: frac_part ++ NumParser.unit_suffix _unit)
      (NumParser.decimal (int_part ++ frac_part)
       * 10 ^ Z.of_nat (max_decimals - List.length frac_part)).

(** A literal of the source text as bytes. *)
Definition lit (s : string) : bytes := list_ascii_of_string s.

(** ** OBIS identifiers (parser.h) *)

(** Modelled from the spec: the declaration of [ObisId] is not among the
    sources.  It is a six-component identifier of bytes, compared by
    equality of the components.  The catalog calls its constructor with
    six or with five components; what the constructor gives the
    components a call leaves out is the parameter [omitted]. *)
Definition ObisId := list Z.

(** Modelled from the spec: the constructor of [ObisId], from the
    components a call gives it to the six of the identifier. *)
Definition make_ObisId (omitted : Z) (args : list Z) : ObisId :=
  firstn 6 (args ++ repeat omitted 6).

(** Modelled from the spec: [operator==] of [ObisId], equality of the
    components. *)
Fixpoint ObisId_eqb (x y : ObisId) : bool :=
  match x, y with
  | [], [] => true
  | a :: x', b :: y' => (a =? b)%Z && ObisId_eqb x' y'
  | _, _ => false
  end.

(** The identification sentinel: six components, all 255. *)
Definition is_sentinel (x : ObisId) : bool :=
  (List.length x =? 6) && forallb (Z.eqb 255) x.

(** No identifier of the list is equal to a later one. *)
Fixpoint all_distinct (ids : list ObisId) : bool :=
  match ids with
  | [] => true
  | x :: ids' => negb (existsb (ObisId_eqb x) ids') && all_distinct ids'
  end.

(** ** The field catalog (namespace dsmr::fields) *)

Module fields.

(** [struct units] *)
Module units.
Definition none : bytes := lit "".
Definition kWh : bytes := lit "kWh".
Definition Wh : bytes := lit "Wh".
Definition kW : bytes := lit "kW".
Definition W : bytes := lit "W".
Definition V : bytes := lit "V".
Definition mV : bytes := lit "mV".
Definition A : bytes := lit "A".
Definition mA : bytes := lit "mA".
Definition m3 : bytes := lit "m3".
Definition dm3 : bytes := lit "dm3".
Definition GJ : bytes := lit "GJ".
Definition MJ : bytes := lit "MJ".
Definition kvar : bytes := lit "kvar".
Definition kvarh : bytes := lit "kvarh".
Definition Hz : bytes := lit "Hz".
End units.

(** The value types and the field types that a [DEFINE_FIELD] names. *)
Inductive value_t : Type :=
| String_t
| FixedValue_t
| TimestampedFixedValue_t
| uint32_t.

Inductive field_t : Type :=
| StringField_t
| TimestampField_t
| FixedField_t
| TimestampedFixedField_t
| IntField_t
| RawField_t.

(** A template argument of the field type ([field_args...]). *)
Inductive field_arg : Type :=
| size_arg (n : nat)
| unit_arg (label : bytes).

(** One [DEFINE_FIELD(fieldname, value_t, obis, field_t, field_args...)],
    with the arguments of its [ObisId(...)] as written. *)
Record FieldDef : Type := DEFINE_FIELD
  { name : string;
    value_type : value_t;
    obis : list Z;
    strategy : field_t;
    field_args : list field_arg }.

(** [static constexpr ObisId id = obis;] *)
Definition id (omitted : Z) (entry : FieldDef) : ObisId :=
  make_ObisId omitted (obis entry).

(** The unit label bound at position [n] of the template arguments that
    follow the record type, when the entry binds one there. *)
Definition bound_unit (n : nat) (entry : FieldDef) : option bytes :=
  match nth_error (field_args entry) n with
  | Some (unit_arg label) => Some label
  | _ => None
  end.

(** [FixedField<T, _unit, _int_unit>::unit()] and [::int_unit()]. *)
Definition unit (entry : FieldDef) : option bytes := bound_unit 0 entry.
Definition int_unit (entry : FieldDef) : option bytes := bound_unit 1 entry.

Definition uses_FixedField (entry : FieldDef) : bool :=
  match strategy entry with
  | FixedField_t => true
  | _ => false
  end.

Definition binds_both_units (entry : FieldDef) : bool :=
  match unit entry, int_unit entry with
  | Some _, Some _ => true
  | _, _ => false
  end.

Definition identification : FieldDef :=
  DEFINE_FIELD "identification" String_t [255; 255; 255; 255; 255; 255]%Z RawField_t [].

Definition timestamp : FieldDef :=
  DEFINE_FIELD "timestamp" String_t [0; 0; 1; 0; 0]%Z TimestampField_t [].

Definition equipment_id : FieldDef :=
  DEFINE_FIELD "equipment_id" String_t [0; 0; 96; 1; 0]%Z StringField_t [size_arg 0; size_arg 96].

Definition energy_delivered_lux : FieldDef :=
  DEFINE_FIELD "energy_delivered_lux" FixedValue_t [1; 0; 1; 8; 0]%Z FixedField_t [unit_arg units.kWh; unit_arg units.Wh].

Definition energy_delivered_tariff1 : FieldDef :=
  DEFINE_FIELD "energy_delivered_tariff1" FixedValue_t [1; 0; 1; 8; 1]%Z FixedField_t [unit_arg units.kWh; unit_arg units.Wh].

Definition energy_delivered_tariff2 : FieldDef :=
  DEFINE_FIELD "energy_delivered_tariff2" FixedValue_t [1; 0; 1; 8; 2]%Z FixedField_t [unit_arg units.kWh; unit_arg units.Wh].

Definition energy_returned_lux : FieldDef :=
  DEFINE_FIELD "energy_returned_lux" FixedValue_t [1; 0; 2; 8; 0]%Z FixedField_t [unit_arg units.kWh; unit_arg units.Wh].

Definition energy_returned_tariff1 : FieldDef :=
  DEFINE_FIELD "energy_returned_tariff1" FixedValue_t [1; 0; 2; 8; 1]%Z FixedField_t [unit_arg units.kWh; unit_arg units.Wh].

Definition energy_returned_tariff2 : FieldDef :=
  DEFINE_FIELD "energy_returned_tariff2" FixedValue_t [1; 0; 2; 8; 2]%Z FixedField_t [unit_arg units.kWh; unit_arg units.Wh].

Definition total_imported_energy : FieldDef :=
  DEFINE_FIELD "total_imported_energy" FixedValue_t [1; 0; 3; 8; 0]%Z FixedField_t [unit_arg units.kvarh; unit_arg units.kvarh].

Definition total_exported_energy : FieldDef :=
  DEFINE_FIELD "total_exported_energy" FixedValue_t [1; 0; 4; 8; 0]%Z FixedField_t [unit_arg units.kvarh; unit_arg units.kvarh].

Definition electricity_tariff : FieldDef :=
  DEFINE_FIELD "electricity_tariff" String_t [0; 0; 96; 14; 0]%Z StringField_t [size_arg 4; size_arg 4].

Definition power_delivered : FieldDef :=
  DEFINE_FIELD "power_delivered" FixedValue_t [1; 0; 1; 7; 0]%Z FixedField_t [unit_arg units.kW; unit_arg units.W].

Definition power_returned : FieldDef :=
  DEFINE_FIELD "power_returned" FixedValue_t [1; 0; 2; 7; 0]%Z FixedField_t [unit_arg units.kW; unit_arg units.W].

Definition electricity_threshold : FieldDef :=
  DEFINE_FIELD "electricity_threshold" FixedValue_t [0; 0; 17; 0; 0]%Z FixedField_t [unit_arg units.kW; unit_arg units.W].

Definition message_long : FieldDef :=
  DEFINE_FIELD "message_long" String_t [0; 0; 96; 13; 0]%Z StringField_t [size_arg 0; size_arg 2048].

Definition voltage_l1 : FieldDef :=
  DEFINE_FIELD "voltage_l1" FixedValue_t [1; 0; 32; 7; 0]%Z FixedField_t [unit_arg units.V; unit_arg units.mV].

Definition voltage_l2 : FieldDef :=
  DEFINE_FIELD "voltage_l2" FixedValue_t [1; 0; 52; 7; 0]%Z FixedField_t [unit_arg units.V; unit_arg units.mV].

Definition voltage_l3 : FieldDef :=
  DEFINE_FIELD "voltage_l3" FixedValue_t [1; 0; 72; 7; 0]%Z FixedField_t [unit_arg units.V; unit_arg units.mV].

Definition current_l1 : FieldDef :=
  DEFINE_FIELD "current_l1" FixedValue_t [1; 0; 31; 7; 0]%Z FixedField_t [unit_arg units.A; unit_arg units.mA].

Definition current_l2 : FieldDef :=
  DEFINE_FIELD "current_l2" FixedValue_t [1; 0; 51; 7; 0]%Z FixedField_t [unit_arg units.A; unit_arg units.mA].

Definition current_l3 : FieldDef :=
  DEFINE_FIELD "current_l3" FixedValue_t [1; 0; 71; 7; 0]%Z FixedField_t [unit_arg units.A; unit_arg units.mA].

Definition energy_combined_total : FieldDef :=
  DEFINE_FIELD "energy_combined_total" FixedValue_t [1; 0; 15; 8; 0]%Z FixedField_t [unit_arg units.kWh; unit_arg units.Wh].

Definition maximum_current_l1 : FieldDef :=
  DEFINE_FIELD "maximum_current_l1" FixedValue_t [1; 0; 31; 4; 0]%Z FixedField_t [unit_arg units.A; unit_arg units.mA].

Definition maximum_current_l2 : FieldDef :=
  DEFINE_FIELD "maximum_current_l2" FixedValue_t [1; 0; 51; 4; 0]%Z FixedField_t [unit_arg units.A; unit_arg units.mA].

Definition maximum_current_l3 : FieldDef :=
  DEFINE_FIELD "maximum_current_l3" FixedValue_t [1; 0; 71; 4; 0]%Z FixedField_t [unit_arg units.A; unit_arg units.mA].

Definition frequency : FieldDef :=
  DEFINE_FIELD "frequency" FixedValue_t [1; 0; 14; 7; 0]%Z FixedField_t [unit_arg units.Hz].

Definition power_factor : FieldDef :=
  DEFINE_FIELD "power_factor" String_t [1; 0; 13; 7; 0]%Z RawField_t [].

Definition power_factor_l1 : FieldDef :=
  DEFINE_FIELD "power_factor_l1" String_t [1; 0; 33; 7; 0]%Z RawField_t [].

Definition power_factor_l2 : FieldDef :=
  DEFINE_FIELD "power_factor_l2" String_t [1; 0; 53; 7; 0]%Z RawField_t [].

Definition power_factor_l3 : FieldDef :=
  DEFINE_FIELD "power_factor_l3" String_t [1; 0; 73; 7; 0]%Z RawField_t [].

Definition monthly_datas : FieldDef :=
  DEFINE_FIELD "monthly_datas" String_t [0; 0; 98; 1; 0]%Z StringField_t [size_arg 0; size_arg 2048].

Definition COSEM_logical_device_name : FieldDef :=
  DEFINE_FIELD "COSEM_logical_device_name" String_t [0; 0; 42; 0; 0]%Z StringField_t [size_arg 0; size_arg 64].

Definition breaker_status : FieldDef :=
  DEFINE_FIELD "breaker_status" String_t [0; 0; 96; 50; 68]%Z StringField_t [size_arg 0; size_arg 2048].

Definition catalog : list FieldDef :=
  [identification;
   timestamp;
   equipment_id;
   energy_delivered_lux;
   energy_delivered_tariff1;
   energy_delivered_tariff2;
   energy_returned_lux;
   energy_returned_tariff1;
   energy_returned_tariff2;
   total_imported_energy;
   total_exported_energy;
   electricity_tariff;
   power_delivered;
   power_returned;
   electricity_threshold;
   message_long;
   voltage_l1;
   voltage_l2;
   voltage_l3;
   current_l1;
   current_l2;
   current_l3;
   energy_combined_total;
   maximum_current_l1;
   maximum_current_l2;
   maximum_current_l3;
   frequency;
   power_factor;
   power_factor_l1;
   power_factor_l2;
   power_factor_l3;
   monthly_datas;
   COSEM_logical_device_name;
   breaker_status].

End fields.

(** ** What the catalog's entries ask of their field types *)

(** The value types through which a field type's [parse] can write:
    [StringField] (so [TimestampField]) and [RawField] hand [val()] a
    String, [FixedField] assigns the member [_value] of [val()], which
    [FixedValue] and the [TimestampedFixedValue] derived from it have,
    [TimestampedFixedField] its member [timestamp] as well, and [IntField]
    assigns [val()] the [uint32_t] read. *)
Definition slot_matches (strategy : fields.field_t) (slot : fields.value_t) : bool :=
  match strategy, slot with
  | fields.StringField_t, fields.String_t => true
  | fields.TimestampField_t, fields.String_t => true
  | fields.RawField_t, fields.String_t => true
  | fields.FixedField_t, fields.FixedValue_t => true
  | fields.FixedField_t, fields.TimestampedFixedValue_t => true
  | fields.TimestampedFixedField_t, fields.TimestampedFixedValue_t => true
  | fields.IntField_t, fields.uint32_t => true
  | _, _ => false
  end.

(** The bounds [minlen] and [maxlen] that an entry gives [StringField]. *)
Definition string_bounds (entry : fields.FieldDef) : option (nat * nat) :=
  match fields.field_args entry with
  | [fields.size_arg minlen; fields.size_arg maxlen] => Some (minlen, maxlen)
  | _ => None
  end.

Definition uses_StringField (entry : fields.FieldDef) : bool :=
  match fields.strategy entry with
  | fields.StringField_t => true
  | _ => false
  end.

(** The small unit is the thousandth of the large one by its label: the
    large label is the small one behind a [k], or the small label the
    large one behind an [m]. *)
Definition thousandth (_unit _int_unit : bytes) : bool :=
  NumParser.bytes_eqb _unit ("k"%char :: _int_unit)
  || NumParser.bytes_eqb _int_unit ("m"%char :: _unit).

Definition units_thousandth (entry : fields.FieldDef) : bool :=
  match fields.unit entry, fields.int_unit entry with
  | Some _unit, Some _int_unit => thousandth _unit _int_unit
  | _, _ => false
  end.

(** * Properties *)

(** ** The number scanner reads exactly the number forms *)

Module NumParserFacts.
Import NumParser.

Lemma bytes_eqb_refl a : bytes_eqb a a = true.
Proof.
  induction a as [|x a IH]; simpl; [reflexivity|].
  now rewrite Ascii.eqb_refl, IH.
Qed.

Lemma bytes_eqb_eq a b : bytes_eqb a b = true <-> a = b.
Proof.
  split.
  - revert b; induction a as [|x a IH]; intros [|y b]; simpl; try discriminate.
    + reflexivity.
    + intros E. apply andb_true_iff in E as [Exy Eab].
      apply Ascii.eqb_eq in Exy. apply IH in Eab. now subst.
  - intros ->. apply bytes_eqb_refl.
Qed.

Lemma take_digits_split str ds rest :
  take_digits str = (ds, rest) -> str = ds ++ rest /\ all_digits ds.
Proof.
  unfold all_digits.
  revert ds rest; induction str as [|c str IH]; simpl; intros ds rest E.
  - inversion E; subst. now split.
  - destruct (is_digit c) eqn:Dc.
    + destruct (take_digits str) as [ds' rest'] eqn:Et.
      inversion E; subst. destruct (IH _ _ eq_refl) as [-> Hd].
      split; [reflexivity|]. simpl. now rewrite Dc.
    + inversion E; subst. now split.
Qed.

Lemma take_digits_app ds rest :
  all_digits ds -> starts_with_digit rest = false ->
  take_digits (ds ++ rest) = (ds, rest).
Proof.
  unfold all_digits.
  induction ds as [|c ds IH]; simpl; intros Hd Hr.
  - destruct rest as [|c rest]; [reflexivity|].
    simpl in Hr |- *. now rewrite Hr.
  - apply andb_true_iff in Hd as [Dc Hd]. rewrite Dc, (IH Hd Hr). reflexivity.
Qed.

Lemma unit_suffix_no_digit u : starts_with_digit (unit_suffix u) = false.
Proof. destruct u; reflexivity. Qed.

Lemma unit_suffix_inj u u' : unit_suffix u = unit_suffix u' -> u = u'.
Proof.
  destruct u as [|x u], u' as [|y u']; simpl; intros E;
    try reflexivity; try discriminate.
  now inversion E.
Qed.

Lemma unit_suffix_no_point u r : unit_suffix u <> "."%char :: r.
Proof. destruct u; simpl; intros E; discriminate. Qed.

(** The token of a number form splits in one way only. *)
Lemma number_form_take_digits md u tok v :
  number_form md u tok v ->
  exists ip after, take_digits tok = (ip, after) /\ ip <> [] /\
    ((after = unit_suffix u /\ v = (decimal ip * 10 ^ Z.of_nat md)%Z) \/
     (exists fp, after = "."%char :: fp ++ unit_suffix u /\
        take_digits (fp ++ unit_suffix u) = (fp, unit_suffix u) /\
        fp <> [] /\ List.length fp <= md /\
        v = (decimal (ip ++ fp) * 10 ^ Z.of_nat (md - List.length fp))%Z)).
Proof.
  intros [ip Hne Hd | ip fp Hne Hd Hfne Hfd Hlen].
  - exists ip, (unit_suffix u). split; [|split; [assumption|left; now split]].
    apply take_digits_app; [assumption | apply unit_suffix_no_digit].
  - exists ip, ("."%char :: fp ++ unit_suffix u).
    split; [|split; [assumption|right]].
    + now apply take_digits_app.
    + exists fp. repeat split; try assumption.
      apply take_digits_app; [assumption | apply unit_suffix_no_digit].
Qed.

Lemma scan_number_complete md u tok v :
  number_form md u tok v -> scan_number md u tok = inr (uint32 v).
Proof.
  intros F. apply number_form_take_digits in F
    as (ip & after & Et & Hne & [[-> ->] | (fp & -> & Ef & Hfne & Hlen & ->)]);
    unfold scan_number; rewrite Et; destruct ip as [|c ip]; try congruence.
  - destruct u as [|x u]; simpl.
    + now rewrite app_nil_r, Nat.sub_0_r.
    + destruct (Ascii.eqb "*" ".") eqn:E; [discriminate|].
      rewrite Ascii.eqb_refl, bytes_eqb_refl. simpl.
      now rewrite app_nil_r, Nat.sub_0_r.
  - rewrite Ascii.eqb_refl, Ef.
    assert (L1 : (1 <=? List.length fp) = true).
    { apply Nat.leb_le. destruct fp; [congruence | simpl; lia]. }
    assert (L2 : (List.length fp <=? md) = true) by now apply Nat.leb_le.
    rewrite L1, L2, bytes_eqb_refl. reflexivity.
Qed.

Lemma scan_number_sound md u tok value :
  scan_number md u tok = inr value ->
  exists v, number_form md u tok v /\ value = uint32 v.
Proof.
  unfold scan_number.
  destruct (take_digits tok) as [ip after] eqn:Et.
  apply take_digits_split in Et as [-> Hd].
  destruct ip as [|c ip]; [discriminate|].
  assert (Hne : c :: ip <> []) by discriminate.
  destruct after as [|a after].
  - destruct (bytes_eqb [] (unit_suffix u)) eqn:Eu; [|discriminate].
    apply bytes_eqb_eq in Eu. intros E; inversion E; subst value; clear E.
    exists (decimal (c :: ip) * 10 ^ Z.of_nat md)%Z. split.
    + rewrite Eu. now constructor.
    + now rewrite app_nil_r, Nat.sub_0_r.
  - destruct (Ascii.eqb a ".") eqn:Ea.
    + apply Ascii.eqb_eq in Ea; subst a.
      destruct (take_digits after) as [fp r'] eqn:Ef.
      apply take_digits_split in Ef as [-> Hfd].
      destruct ((1 <=? List.length fp) && (List.length fp <=? md)) eqn:Ew;
        [|discriminate].
      apply andb_true_iff in Ew as [L1 L2].
      apply Nat.leb_le in L1, L2.
      destruct (bytes_eqb r' (unit_suffix u)) eqn:Eu.
      * apply bytes_eqb_eq in Eu; subst r'.
        intros E; inversion E; subst value; clear E.
        eexists; split; [|reflexivity].
        constructor; try assumption.
        destruct fp; [simpl in L1; lia | discriminate].
      * destruct r' as [|x r']; [discriminate|].
        destruct (Ascii.eqb x "*"); discriminate.
    + destruct (bytes_eqb (a :: after) (unit_suffix u)) eqn:Eu.
      * apply bytes_eqb_eq in Eu.
        intros E; inversion E; subst value; clear E.
        exists (decimal (c :: ip) * 10 ^ Z.of_nat md)%Z. split.
        -- rewrite Eu. now constructor.
        -- now rewrite app_nil_r, Nat.sub_0_r.
      * destruct (Ascii.eqb a "*"); discriminate.
Qed.

(** With different unit labels, an integer-form token of the one is no
    number form of the other. *)
Lemma other_unit_rejected md md' u u' tok v :
  number_form md u tok v -> u <> u' ->
  forall v', ~ number_form md' u' tok v'.
Proof.
  intros F Hu v' F'.
  apply number_form_take_digits in F as (ip & after & Et & _ & Ha).
  apply number_form_take_digits in F' as (ip' & after' & Et' & _ & Ha').
  rewrite Et in Et'. inversion Et'; subst ip' after'; clear Et'.
  destruct Ha as [[Ea _] | (fp & Ea & Ef & _)],
           Ha' as [[Ea' _] | (fp' & Ea' & Ef' & _)].
  - rewrite Ea in Ea'. now apply unit_suffix_inj in Ea'.
  - rewrite Ea in Ea'. now apply unit_suffix_no_point in Ea'.
  - rewrite Ea in Ea'. symmetry in Ea'. now apply unit_suffix_no_point in Ea'.
  - rewrite Ea in Ea'. inversion Ea' as [E]. rewrite E in Ef.
    rewrite Ef in Ef'. inversion Ef' as [[Efp Eu]]. now apply unit_suffix_inj in Eu.
Qed.

Lemma digit_nonneg c : is_digit c = true -> (0 <= digit c)%Z.
Proof.
  unfold is_digit, digit. intros E. apply andb_true_iff in E as [Lo _].
  apply Nat.leb_le in Lo. lia.
Qed.

Lemma decimal_from_nonneg ds : forall acc,
  all_digits ds -> (0 <= acc)%Z ->
  (0 <= fold_left (fun a c => 10 * a + digit c) ds acc)%Z.
Proof.
  unfold all_digits.
  induction ds as [|c ds IH]; cbn [fold_left forallb]; intros acc Hd Hacc;
    [assumption|].
  apply andb_true_iff in Hd as [Dc Hd]. apply IH; [assumption|].
  apply digit_nonneg in Dc. lia.
Qed.

Lemma decimal_nonneg ds : all_digits ds -> (0 <= decimal ds)%Z.
Proof. intros Hd. now apply decimal_from_nonneg. Qed.

Lemma number_form_nonneg md u tok v : number_form md u tok v -> (0 <= v)%Z.
Proof.
  intros [ip _ Hd | ip fp _ Hd _ Hfd _];
    apply Z.mul_nonneg_nonneg;
    try (apply Z.pow_nonneg; lia); apply decimal_nonneg; try assumption.
  unfold all_digits in *. rewrite forallb_app. now rewrite Hd, Hfd.
Qed.

Lemma uint32_small n : (0 <= n < 2 ^ 32)%Z -> uint32 n = n.
Proof. intros Hn. unfold uint32. now apply Z.mod_small. Qed.

End NumParserFacts.

(** ** FixedField *)

Section FixedFieldOnScanner.
Variable unwrap : framing.
Variables _unit _int_unit : bytes.
Variable str : span.
Variable this : FieldRecord FixedValue.

Lemma NumParser_parse_ok md u tok rest v :
  unwrap str = Some (tok, rest) -> number_form md u tok v ->
  NumParser.parse unwrap md u str
  = mkParseResult (NumParser.uint32 v) rest None [].
Proof.
  intros Eu F. unfold NumParser.parse. rewrite Eu.
  now rewrite (NumParserFacts.scan_number_complete _ _ _ _ F).
Qed.

Lemma NumParser_parse_ok_inv md u :
  err (NumParser.parse unwrap md u str) = None ->
  exists tok rest v, unwrap str = Some (tok, rest) /\ number_form md u tok v.
Proof.
  unfold NumParser.parse.
  destruct (unwrap str) as [[tok rest]|]; [|discriminate].
  destruct (NumParser.scan_number md u tok) as [kind|value] eqn:Es; [discriminate|].
  intros _. apply NumParserFacts.scan_number_sound in Es as (v & F & _).
  now exists tok, rest, v.
Qed.

Lemma FixedField_float_form tok rest v :
  unwrap str = Some (tok, rest) -> number_form 3 _unit tok v ->
  FixedField.parse (NumParser.parse unwrap) _unit _int_unit str this
  = (mkParseResult tt rest None [],
     set_val (mkFixedValue (NumParser.uint32 v)) this).
Proof.
  intros Eu F. unfold FixedField.parse.
  now rewrite (NumParser_parse_ok _ _ _ _ _ Eu F).
Qed.

Lemma FixedField_integer_form tok rest n :
  unwrap str = Some (tok, rest) -> number_form 0 _int_unit tok n ->
  _unit <> _int_unit ->
  FixedField.parse (NumParser.parse unwrap) _unit _int_unit str this
  = (mkParseResult tt rest None [],
     set_val (mkFixedValue (NumParser.uint32 n)) this).
Proof.
  intros Eu F Hu. unfold FixedField.parse.
  destruct (err (NumParser.parse unwrap 3 _unit str)) eqn:Ef.
  - now rewrite (NumParser_parse_ok _ _ _ _ _ Eu F).
  - exfalso. apply NumParser_parse_ok_inv in Ef as (tok' & rest' & v & Eu' & F').
    rewrite Eu in Eu'. inversion Eu'; subst tok' rest'.
    apply (NumParserFacts.other_unit_rejected _ 3 _ _ _ _ F (not_eq_sym Hu) v F').
Qed.

Lemma FixedField_accepts_only :
  err (fst (FixedField.parse (NumParser.parse unwrap) _unit _int_unit str this))
  = None ->
  exists tok rest, unwrap str = Some (tok, rest) /\
    ((exists v, number_form 3 _unit tok v)
     \/ (exists n, number_form 0 _int_unit tok n)).
Proof.
  unfold FixedField.parse.
  destruct (err (NumParser.parse unwrap 3 _unit str)) eqn:Ef.
  - destruct (err (NumParser.parse unwrap 0 _int_unit str)) eqn:Ei.
    + simpl. rewrite Ef. discriminate.
    + intros _. apply NumParser_parse_ok_inv in Ei as (tok & rest & n & Eu & F).
      exists tok, rest. split; [assumption|]. right. now exists n.
  - intros _. apply NumParser_parse_ok_inv in Ef as (tok & rest & v & Eu & F).
    exists tok, rest. split; [assumption|]. left. now exists v.
Qed.

End FixedFieldOnScanner.

(** C1, amended.  With the number scanner of the spec, [FixedField::parse]
    accepts exactly two encodings of its token, and what it stores is in
    both the value reduced modulo [2 ^ 32], as the [uint32_t] slot holds
    it, hence the value itself whenever that is below [2 ^ 32].  A
    float-form token (at most 3 fraction digits, then the declared large
    unit) is accepted and the value stored is its decimal value rescaled
    by 1000.  An integer-form token (no fraction digits, then the declared
    small unit) is accepted, and when the small unit is not the large
    unit the value stored is the literal value, unscaled; with one label
    for both units the token is a float-form token and the value stored
    is the literal value times 1000.  Nothing else is accepted.  For the
    units kWh/Wh the tokens [000441.879*kWh] and [000441879*Wh] both
    store 441879. *)
Theorem FixedField_accepts_two_encodings :
  forall (unwrap : framing) (_unit _int_unit : bytes) (str : span)
         (this : FieldRecord FixedValue),
    let out := FixedField.parse (NumParser.parse unwrap) _unit _int_unit str this in
    (forall tok rest v,
        unwrap str = Some (tok, rest) ->
        number_form 3 _unit tok v ->
        err (fst out) = None /\ next (fst out) = rest
        /\ _value (val (snd out)) = NumParser.uint32 v
        /\ ((v < 2 ^ 32)%Z -> _value (val (snd out)) = v))
    /\ (forall int_part rest,
        unwrap str = Some (int_part ++ NumParser.unit_suffix _int_unit, rest) ->
        int_part <> [] -> all_digits int_part ->
        _unit <> _int_unit ->
        err (fst out) = None /\ next (fst out) = rest
        /\ _value (val (snd out)) = NumParser.uint32 (NumParser.decimal int_part)
        /\ ((NumParser.decimal int_part < 2 ^ 32)%Z ->
            _value (val (snd out)) = NumParser.decimal int_part))
    /\ (forall int_part rest,
        unwrap str = Some (int_part ++ NumParser.unit_suffix _int_unit, rest) ->
        int_part <> [] -> all_digits int_part ->
        _unit = _int_unit ->
        err (fst out) = None /\ next (fst out) = rest
        /\ _value (val (snd out))
           = NumParser.uint32 (NumParser.decimal int_part * 1000)
        /\ ((NumParser.decimal int_part * 1000 < 2 ^ 32)%Z ->
            _value (val (snd out)) = (NumParser.decimal int_part * 1000)%Z))
    /\ (err (fst out) = None ->
        exists tok rest, unwrap str = Some (tok, rest) /\
          ((exists v, number_form 3 _unit tok v)
           \/ (exists n, number_form 0 _int_unit tok n)))
    /\ (forall rest,
        unwrap str = Some (lit "000441.879*kWh", rest) ->
        _unit = fields.units.kWh -> _int_unit = fields.units.Wh ->
        err (fst out) = None /\ _value (val (snd out)) = 441879%Z)
    /\ (forall rest,
        unwrap str = Some (lit "000441879*Wh", rest) ->
        _unit = fields.units.kWh -> _int_unit = fields.units.Wh ->
        err (fst out) = None /\ _value (val (snd out)) = 441879%Z).
Proof.
  intros unwrap _unit _int_unit str this out.
  split; [|split; [|split; [|split; [|split]]]].
  - intros tok rest v Eu F. unfold out.
    rewrite (FixedField_float_form _ _ _ _ _ tok rest v Eu F). simpl.
    repeat (split; [reflexivity|]). intros Hv.
    apply NumParserFacts.uint32_small. split; [|assumption].
    now apply NumParserFacts.number_form_nonneg in F.
  - intros ip rest Eu Hne Hd Hu.
    assert (F : number_form 0 _int_unit (ip ++ NumParser.unit_suffix _int_unit)
                  (NumParser.decimal ip * 10 ^ Z.of_nat 0)) by now constructor.
    replace (NumParser.decimal ip * 10 ^ Z.of_nat 0)%Z with (NumParser.decimal ip)
      in F by (simpl; lia).
    unfold out. rewrite (FixedField_integer_form _ _ _ _ _ _ rest _ Eu F Hu). simpl.
    repeat (split; [reflexivity|]). intros Hv.
    apply NumParserFacts.uint32_small. split; [|assumption].
    now apply NumParserFacts.decimal_nonneg.
  - intros ip rest Eu Hne Hd Hu. subst _int_unit.
    assert (F : number_form 3 _unit (ip ++ NumParser.unit_suffix _unit)
                  (NumParser.decimal ip * 10 ^ Z.of_nat 3)) by now constructor.
    change (10 ^ Z.of_nat 3)%Z with 1000%Z in F.
    unfold out. rewrite (FixedField_float_form _ _ _ _ _ _ rest _ Eu F). simpl.
    repeat (split; [reflexivity|]). intros Hv.
    apply NumParserFacts.uint32_small. split; [|assumption].
    apply NumParserFacts.decimal_nonneg in Hd. lia.
  - apply FixedField_accepts_only.
  - intros rest Eu -> ->. unfold out, FixedField.parse, NumParser.parse.
    rewrite Eu. vm_compute. now split.
  - intros rest Eu -> ->. unfold out, FixedField.parse, NumParser.parse.
    rewrite Eu. vm_compute. now split.
Qed.

(** C1 as stated fails for a field whose two units are one label, such as
    [total_imported_energy] (kvarh/kvarh): the token [000123*kvarh] is an
    integer-form token with the declared small unit and literal value 123,
    and what is stored is 123000, whether the span is the bare payload or
    the token between its parentheses. *)
Lemma FixedField_same_unit_label_rescales :
  fields.unit fields.total_imported_energy = Some fields.units.kvarh
  /\ fields.int_unit fields.total_imported_energy = Some fields.units.kvarh
  /\ number_form 0 fields.units.kvarh (lit "000123*kvarh") 123
  /\ _value (val (snd (FixedField.parse (NumParser.parse bare)
                         fields.units.kvarh fields.units.kvarh
                         (lit "000123*kvarh")
                         (DEFINE_FIELD_init (mkFixedValue 0))))) = 123000%Z
  /\ _value (val (snd (FixedField.parse (NumParser.parse parenthesised)
                         fields.units.kvarh fields.units.kvarh
                         (lit "(000123*kvarh)")
                         (DEFINE_FIELD_init (mkFixedValue 0))))) = 123000%Z.
Proof.
  repeat split.
  exact (number_without_point 0 fields.units.kvarh (lit "000123")
           ltac:(discriminate) eq_refl).
Qed.

(** C2.  When the float-form attempt and the integer-form attempt both
    fail, [FixedField::parse] returns the result of the float-form attempt
    (its error kind and its failing position), whatever the integer-form
    attempt reported, and the record is as it was. *)
Theorem FixedField_returns_float_error :
  forall (num_parse : nat -> bytes -> span -> ParseResult Z)
         (V : Type) (slot : HasFixedValue V)
         (_unit _int_unit : bytes) (str : span) (this : FieldRecord V),
    err (num_parse 3 _unit str) <> None ->
    err (num_parse 0 _int_unit str) <> None ->
    FixedField.parse num_parse _unit _int_unit str this
    = (to_void (num_parse 3 _unit str), this)
    /\ err (fst (FixedField.parse num_parse _unit _int_unit str this))
       = err (num_parse 3 _unit str)
    /\ ctx (fst (FixedField.parse num_parse _unit _int_unit str this))
       = ctx (num_parse 3 _unit str).
Proof.
  intros num_parse V slot _unit _int_unit str this Hf Hi.
  assert (E : FixedField.parse num_parse _unit _int_unit str this
              = (to_void (num_parse 3 _unit str), this)).
  { unfold FixedField.parse.
    destruct (err (num_parse 3 _unit str)); [|congruence].
    destruct (err (num_parse 0 _int_unit str)); [reflexivity|congruence]. }
  rewrite E. now repeat split.
Qed.

(** On [(12.5*Wh)] for the units kWh/Wh the float-form attempt fails on
    the unit and the integer-form attempt on the number; the unit mismatch
    of the float-form attempt is what comes back. *)
Lemma FixedField_returns_float_error_witness :
  err (NumParser.parse parenthesised 0 fields.units.Wh (lit "(12.5*Wh)"))
  = Some InvalidFormat
  /\ err (fst (FixedField.parse (NumParser.parse parenthesised)
                 fields.units.kWh fields.units.Wh (lit "(12.5*Wh)")
                 (DEFINE_FIELD_init (mkFixedValue 7))))
     = Some UnitMismatch.
Proof.
  split; [reflexivity|].
  destruct (FixedField_returns_float_error
              (NumParser.parse parenthesised) FixedValue _
              fields.units.kWh fields.units.Wh (lit "(12.5*Wh)")
              (DEFINE_FIELD_init (mkFixedValue 7))) as (_ & E & _).
  - vm_compute; discriminate.
  - vm_compute; discriminate.
  - rewrite E. reflexivity.
Defined.

(** ** TimestampedFixedField *)

Lemma TimestampedFixedField_parse_timestamp_err
      (parse_string : nat -> nat -> span -> ParseResult WString)
      (num_parse : nat -> bytes -> span -> ParseResult Z)
      (_unit _int_unit : bytes) (str : span)
      (this : FieldRecord TimestampedFixedValue) :
  err (parse_string 13 13 str) <> None ->
  TimestampedFixedField.parse parse_string num_parse _unit _int_unit str this
  = (to_void (parse_string 13 13 str), this).
Proof.
  intros Hts. unfold TimestampedFixedField.parse.
  destruct (err (parse_string 13 13 str)); [reflexivity|congruence].
Qed.

(** C4.  When the scan of the 13-character timestamp fails,
    [TimestampedFixedField::parse] returns that result as it is and the
    record (timestamp, numeric value and presence flag) is as it was. *)
Theorem TimestampedFixedField_timestamp_failure :
  forall (parse_string : nat -> nat -> span -> ParseResult WString)
         (num_parse : nat -> bytes -> span -> ParseResult Z)
         (_unit _int_unit : bytes) (str : span)
         (this : FieldRecord TimestampedFixedValue),
    err (parse_string 13 13 str) <> None ->
    TimestampedFixedField.parse parse_string num_parse _unit _int_unit str this
    = (to_void (parse_string 13 13 str), this).
Proof.
  intros parse_string num_parse _unit _int_unit str this Hts.
  now apply TimestampedFixedField_parse_timestamp_err.
Qed.

(** A timestamp of 12 characters in front of a good reading: an
    InvalidLength, and the earlier reading and timestamp are in place. *)
Lemma TimestampedFixedField_timestamp_failure_witness :
  TimestampedFixedField.parse
    (StringParser.parse_string parenthesised) (NumParser.parse parenthesised)
    fields.units.m3 fields.units.dm3 (lit "(15011718000W)(00473.789*m3)")
    (DEFINE_FIELD_init (mkTimestampedFixedValue (mkFixedValue 7) (lit "140101000000W")))
  = (mkParseResult tt [] (Some InvalidLength) (lit "(15011718000W)(00473.789*m3)"),
     DEFINE_FIELD_init (mkTimestampedFixedValue (mkFixedValue 7) (lit "140101000000W"))).
Proof.
  rewrite TimestampedFixedField_timestamp_failure.
  - reflexivity.
  - vm_compute; discriminate.
Defined.

(** C3, amended.  [TimestampedFixedField::parse] writes the timestamp as
    soon as the timestamp stage succeeds and the numeric value only when
    the numeric stage succeeds as well.  So: when the timestamp stage
    fails the record is unmodified; when parse succeeds both the
    timestamp and the numeric value are written; when the timestamp stage
    succeeds and the numeric stage fails, parse returns the failure of
    the numeric stage, the numeric value is unmodified and the timestamp
    is already overwritten with the scanned text. *)
Theorem TimestampedFixedField_stage_writes :
  forall (parse_string : nat -> nat -> span -> ParseResult WString)
         (num_parse : nat -> bytes -> span -> ParseResult Z)
         (_unit _int_unit : bytes) (str : span)
         (this : FieldRecord TimestampedFixedValue),
    let ts := parse_string 13 13 str in
    let out := TimestampedFixedField.parse parse_string num_parse
                 _unit _int_unit str this in
    (err ts <> None -> out = (to_void ts, this))
    /\ (err ts = None ->
        timestamp (val (snd out)) = result ts
        /\ present (snd out) = present this
        /\ (err (fst out) = None ->
            exists res,
              (res = num_parse 3 _unit (next ts)
               \/ res = num_parse 0 _int_unit (next ts))
              /\ err res = None
              /\ fst out = to_void res
              /\ _value (base (val (snd out))) = result res)
        /\ (err (fst out) <> None ->
            fst out = to_void (num_parse 3 _unit (next ts))
            /\ _value (base (val (snd out))) = _value (base (val this)))).
Proof.
  intros parse_string num_parse _unit _int_unit str this ts out.
  split.
  - intros Hts. now apply TimestampedFixedField_parse_timestamp_err.
  - intros Hts. unfold out, TimestampedFixedField.parse. fold ts. rewrite Hts.
    unfold FixedField.parse.
    destruct (err (num_parse 3 _unit (next ts))) eqn:Ef;
      [destruct (err (num_parse 0 _int_unit (next ts))) eqn:Ei|]; simpl.
    + rewrite Ef. split; [reflexivity|split; [reflexivity|split]].
      * intros E; discriminate E.
      * intros _. now split.
    + rewrite Ei. split; [reflexivity|split; [reflexivity|split]].
      * intros _. exists (num_parse 0 _int_unit (next ts)).
        split; [now right|]. split; [assumption|]. now split.
      * intros C; now contradiction C.
    + rewrite Ef. split; [reflexivity|split; [reflexivity|split]].
      * intros _. exists (num_parse 3 _unit (next ts)).
        split; [now left|]. split; [assumption|]. now split.
      * intros C; now contradiction C.
Qed.

(** C3 as stated fails: on [(150117180000W)(00473.789*kWh)] for the units
    m3/dm3 the timestamp stage succeeds and the numeric stage does not
    (the unit is none of the field's); parse returns the failure, and the
    timestamp of the record has changed while its reading has not.  The
    same on the bare 13 characters with nothing behind them. *)
Lemma TimestampedFixedField_partial_write :
  TimestampedFixedField.parse
    (StringParser.parse_string parenthesised) (NumParser.parse parenthesised)
    fields.units.m3 fields.units.dm3 (lit "(150117180000W)(00473.789*kWh)")
    (DEFINE_FIELD_init (mkTimestampedFixedValue (mkFixedValue 7) (lit "140101000000W")))
  = (mkParseResult tt [] (Some UnitMismatch) (lit "(00473.789*kWh)"),
     DEFINE_FIELD_init (mkTimestampedFixedValue (mkFixedValue 7) (lit "150117180000W")))
  /\ TimestampedFixedField.parse
       (StringParser.parse_string bare) (NumParser.parse bare)
       fields.units.m3 fields.units.dm3 (lit "150117180000W")
       (DEFINE_FIELD_init (mkTimestampedFixedValue (mkFixedValue 7) (lit "140101000000W")))
     = (mkParseResult tt [] (Some InvalidFormat) [],
        DEFINE_FIELD_init (mkTimestampedFixedValue (mkFixedValue 7) (lit "150117180000W"))).
Proof. split; reflexivity. Qed.

(** ** StringField *)

(** C5.  With the bounded string scanner of the spec, for a span whose
    token is [tok]: when [minlen <= length tok <= maxlen],
    [StringField::parse] succeeds and the stored value is [tok] unchanged;
    when the token is one character short of [minlen] or one character
    over [maxlen] (indeed whenever its length is outside the bounds) parse
    fails with InvalidLength and the record is unmodified. *)
Theorem StringField_round_trip :
  forall (unwrap : framing) (minlen maxlen : nat) (str : span)
         (tok : bytes) (rest : span) (this : FieldRecord WString),
    unwrap str = Some (tok, rest) ->
    let out := StringField.parse (StringParser.parse_string unwrap)
                 minlen maxlen str this in
    (minlen <= List.length tok <= maxlen ->
     err (fst out) = None /\ next (fst out) = rest /\ val (snd out) = tok)
    /\ (S (List.length tok) = minlen \/ List.length tok = S maxlen ->
        err (fst out) = Some InvalidLength /\ snd out = this)
    /\ (List.length tok < minlen \/ maxlen < List.length tok ->
        err (fst out) = Some InvalidLength /\ snd out = this).
Proof.
  intros unwrap minlen maxlen str tok rest this Eu out.
  assert (Hin : minlen <= List.length tok <= maxlen ->
                err (fst out) = None /\ next (fst out) = rest /\ val (snd out) = tok).
  { intros [Hlo Hhi].
    unfold out, StringField.parse, StringParser.parse_string. rewrite Eu.
    destruct (List.length tok <? minlen) eqn:E1;
      [apply Nat.ltb_lt in E1; lia|].
    destruct (maxlen <? List.length tok) eqn:E2;
      [apply Nat.ltb_lt in E2; lia|].
    simpl. now repeat split. }
  assert (Hout : List.length tok < minlen \/ maxlen < List.length tok ->
                 err (fst out) = Some InvalidLength /\ snd out = this).
  { intros Hlen.
    unfold out, StringField.parse, StringParser.parse_string. rewrite Eu.
    assert (E : (List.length tok <? minlen) || (maxlen <? List.length tok) = true).
    { apply orb_true_iff. destruct Hlen as [Hlen|Hlen];
        [left|right]; now apply Nat.ltb_lt. }
    rewrite E. simpl. now split. }
  split; [assumption|]. split; [|assumption].
  intros [Hlen|Hlen]; apply Hout; lia.
Qed.

(** The tariff indicator ([StringField] with bounds 4 and 4) on [(0002)]. *)
Lemma StringField_round_trip_witness :
  val (snd (StringField.parse (StringParser.parse_string parenthesised) 4 4
              (lit "(0002)") (DEFINE_FIELD_init []))) = lit "0002".
Proof.
  destruct (StringField_round_trip parenthesised 4 4 (lit "(0002)")
              (lit "0002") [] (DEFINE_FIELD_init []) eq_refl) as [Hin _].
  apply Hin. simpl. lia.
Defined.

(** ** Presence flags *)

(** C7.  The presence flag of a record is [false] as declared, and no
    [parse] of the six field types changes it, whatever the scanners and
    [concat_hack] return and whether the parse succeeds or fails. *)
Theorem parse_keeps_presence_flag :
  forall (parse_string : nat -> nat -> span -> ParseResult WString)
         (num_parse : nat -> bytes -> span -> ParseResult Z)
         (concat_hack : WString -> span -> nat -> WString)
         (str : span),
    (forall (value_t : Type) (initial : value_t),
        present (DEFINE_FIELD_init initial) = false)
    /\ (forall minlen maxlen this,
        present (snd (StringField.parse parse_string minlen maxlen str this))
        = present this)
    /\ (forall this,
        present (snd (TimestampField.parse parse_string str this)) = present this)
    /\ (forall (V : Type) (slot : HasFixedValue V) _unit _int_unit (this : FieldRecord V),
        present (snd (FixedField.parse num_parse _unit _int_unit str this))
        = present this)
    /\ (forall _unit _int_unit this,
        present (snd (TimestampedFixedField.parse parse_string num_parse
                        _unit _int_unit str this)) = present this)
    /\ (forall _unit this,
        present (snd (IntField.parse num_parse _unit str this)) = present this)
    /\ (forall this,
        present (snd (RawField.parse concat_hack str this)) = present this).
Proof.
  intros parse_string num_parse concat_hack str.
  assert (Fixed : forall (V : Type) (slot : HasFixedValue V) u iu s (this : FieldRecord V),
             present (snd (FixedField.parse num_parse u iu s this)) = present this).
  { intros V slot u iu s this. unfold FixedField.parse.
    destruct (err (num_parse 3 u s)); [|reflexivity].
    destruct (err (num_parse 0 iu s)); reflexivity. }
  assert (Str : forall minlen maxlen this,
             present (snd (StringField.parse parse_string minlen maxlen str this))
             = present this).
  { intros minlen maxlen this. unfold StringField.parse.
    destruct (err (parse_string minlen maxlen str)); reflexivity. }
  split; [reflexivity|]. split; [exact Str|]. split; [exact (Str 13 13)|].
  split; [intros; apply Fixed|]. split; [|split].
  - intros u iu this. unfold TimestampedFixedField.parse.
    destruct (err (parse_string 13 13 str)); [reflexivity|].
    now rewrite Fixed.
  - intros u this. unfold IntField.parse.
    destruct (err (num_parse 0 u str)); reflexivity.
  - reflexivity.
Qed.

(** ** The catalog *)

Lemma ObisId_eqb_refl x : ObisId_eqb x x = true.
Proof.
  induction x as [|a x IH]; simpl; [reflexivity|].
  now rewrite Z.eqb_refl, IH.
Qed.

Lemma all_distinct_NoDup ids : all_distinct ids = true -> NoDup ids.
Proof.
  induction ids as [|x ids IH]; simpl; intros E; [constructor|].
  apply andb_true_iff in E as [Hx Hids].
  constructor; [|now apply IH].
  intros Hin. apply negb_true_iff in Hx.
  assert (Ex : existsb (ObisId_eqb x) ids = true).
  { apply existsb_exists. exists x. split; [assumption | apply ObisId_eqb_refl]. }
  congruence.
Qed.

(** C8.  Whatever the constructor gives the component that the catalog
    leaves out, the OBIS ids of the catalog's records are pairwise
    distinct, and the records that carry the all-255 sentinel are the
    identification entry and no other. *)
Theorem catalog_ids_distinct :
  forall omitted : Z,
    NoDup (map (fields.id omitted) fields.catalog)
    /\ filter (fun entry => is_sentinel (fields.id omitted entry)) fields.catalog
       = [fields.identification]
    /\ fields.id omitted fields.identification = [255; 255; 255; 255; 255; 255]%Z.
Proof.
  intros omitted. split; [|split].
  - apply all_distinct_NoDup. vm_compute. reflexivity.
  - vm_compute. reflexivity.
  - reflexivity.
Qed.

(** C9 on the code: every catalog entry of strategy [FixedField] binds a
    large and a small unit, but for [frequency], which binds [Hz] alone:
    no second label is there for its [int_unit()]. *)
Theorem frequency_binds_one_unit :
  In fields.frequency fields.catalog
  /\ fields.strategy fields.frequency = fields.FixedField_t
  /\ fields.field_args fields.frequency = [fields.unit_arg fields.units.Hz]
  /\ fields.unit fields.frequency = Some fields.units.Hz
  /\ fields.int_unit fields.frequency = None
  /\ filter (fun entry => fields.uses_FixedField entry
                          && negb (fields.binds_both_units entry))
            fields.catalog
     = [fields.frequency].
Proof.
  repeat split. unfold fields.catalog. simpl. tauto.
Qed.

(** * Further properties of the field types *)

(** ** FixedField, for every number scanner *)

Section FixedFieldAnyScanner.
Variable num_parse : nat -> bytes -> span -> ParseResult Z.

(** X1.  [FixedField::parse] succeeds exactly when one of its two attempts
    does.  The float-form attempt has the first say: when it succeeds its
    cursor and value are taken whatever the integer-form attempt would
    give; the integer-form ones are taken only behind a failed float-form
    attempt.  Whenever parse fails the record is as it was. *)
Theorem FixedField_succeeds_iff :
  forall (V : Type) (slot : HasFixedValue V)
         (_unit _int_unit : bytes) (str : span) (this : FieldRecord V),
    let res_float := num_parse 3 _unit str in
    let res_int := num_parse 0 _int_unit str in
    let out := FixedField.parse num_parse _unit _int_unit str this in
    (err (fst out) = None <-> err res_float = None \/ err res_int = None)
    /\ (err res_float = None ->
        out = (to_void res_float,
               set_val (set_value (result res_float) (val this)) this))
    /\ (err res_float <> None -> err res_int = None ->
        out = (to_void res_int,
               set_val (set_value (result res_int) (val this)) this))
    /\ (err (fst out) <> None -> snd out = this).
Proof.
  intros V slot _unit _int_unit str this res_float res_int out.
  unfold out, FixedField.parse. fold res_float res_int.
  destruct (err res_float) as [kf|] eqn:Ef;
    [destruct (err res_int) as [ki|] eqn:Ei|]; simpl.
  - rewrite Ef. repeat split; try congruence.
    + intros [C|C]; discriminate C.
  - rewrite Ei. repeat split; try congruence.
    + intros _. now right.
  - rewrite Ef. repeat split; try congruence.
    + intros _. now left.
Qed.


(** X3.  On the record of a timestamped value [FixedField::parse] writes the
    reading only: the timestamp and the presence flag are as before,
    whether it succeeds or fails. *)
Theorem FixedField_keeps_timestamp :
  forall (_unit _int_unit : bytes) (str : span)
         (this : FieldRecord TimestampedFixedValue),
    timestamp (val (snd (FixedField.parse num_parse _unit _int_unit str this)))
    = timestamp (val this)
    /\ present (snd (FixedField.parse num_parse _unit _int_unit str this))
       = present this.
Proof.
  intros _unit _int_unit str this. unfold FixedField.parse.
  destruct (err (num_parse 3 _unit str)); [|now split].
  destruct (err (num_parse 0 _int_unit str)); now split.
Qed.

(** X4.  Behind a failed float-form attempt [FixedField::parse] is the
    [IntField] of the small unit: when that succeeds both return the same
    result and store the same number.  (When it fails too they differ:
    [FixedField] reports the float-form failure.) *)
Theorem FixedField_falls_back_to_IntField :
  forall (_unit _int_unit : bytes) (str : span)
         (this : FieldRecord FixedValue) (that : FieldRecord Z),
    err (num_parse 3 _unit str) <> None ->
    err (fst (IntField.parse num_parse _int_unit str that)) = None ->
    fst (FixedField.parse num_parse _unit _int_unit str this)
    = fst (IntField.parse num_parse _int_unit str that)
    /\ _value (val (snd (FixedField.parse num_parse _unit _int_unit str this)))
       = val (snd (IntField.parse num_parse _int_unit str that)).
Proof.
  intros _unit _int_unit str this that Hf.
  unfold FixedField.parse, IntField.parse.
  destruct (err (num_parse 3 _unit str)); [|congruence].
  destruct (err (num_parse 0 _int_unit str)) eqn:Ei; simpl.
  - rewrite Ei. discriminate.
  - now split.
Qed.

End FixedFieldAnyScanner.

(** A meter that reports [(000441879*Wh)] to a field of units kWh/Wh. *)
Lemma FixedField_falls_back_to_IntField_witness :
  _value (val (snd (FixedField.parse (NumParser.parse parenthesised)
                      fields.units.kWh fields.units.Wh (lit "(000441879*Wh)")
                      (DEFINE_FIELD_init (mkFixedValue 0)))))
  = val (snd (IntField.parse (NumParser.parse parenthesised)
                fields.units.Wh (lit "(000441879*Wh)") (DEFINE_FIELD_init 0%Z))).
Proof.
  apply (FixedField_falls_back_to_IntField (NumParser.parse parenthesised)
           fields.units.kWh fields.units.Wh (lit "(000441879*Wh)")
           (DEFINE_FIELD_init (mkFixedValue 0)) (DEFINE_FIELD_init 0%Z)).
  - vm_compute; discriminate.
  - reflexivity.
Defined.

(** ** StringField and IntField, for every scanner *)

(** X5.  [StringField::parse] returns the scanner's result as it is.  When the
    scan fails the record is untouched; when it succeeds the slot holds
    the scanned text and nothing of what it held, so that behind an
    earlier parse the record is the one the later span alone gives. *)
Theorem StringField_last_success_wins :
  forall (parse_string : nat -> nat -> span -> ParseResult WString)
         (minlen maxlen : nat) (str1 str2 : span) (this : FieldRecord WString),
    let first := snd (StringField.parse parse_string minlen maxlen str1 this) in
    let again := StringField.parse parse_string minlen maxlen str2 first in
    let alone := StringField.parse parse_string minlen maxlen str2 this in
    fst again = to_void (parse_string minlen maxlen str2)
    /\ fst alone = to_void (parse_string minlen maxlen str2)
    /\ (err (fst alone) = None ->
        snd again = snd alone
        /\ val (snd again) = result (parse_string minlen maxlen str2))
    /\ (err (fst alone) <> None -> snd again = first /\ snd alone = this).
Proof.
  intros parse_string minlen maxlen str1 str2 this first again alone.
  assert (P : present first = present this).
  { unfold first, StringField.parse.
    destruct (err (parse_string minlen maxlen str1)); reflexivity. }
  unfold again, alone, StringField.parse.
  destruct (err (parse_string minlen maxlen str2)) as [k|] eqn:E; simpl.
  - rewrite E. split; [reflexivity|split; [reflexivity|split]].
    + intros C; discriminate C.
    + intros _. now split.
  - rewrite E. unfold set_val. rewrite P. simpl.
    split; [reflexivity|split; [reflexivity|split]].
    + intros _. now split.
    + intros C. now contradiction C.
Qed.

(** X6.  [IntField::parse] returns the result of the scan with no decimals and
    the one unit as it is.  When the scan fails the record is untouched;
    when it succeeds the slot holds the number read, whatever it held. *)
Theorem IntField_last_success_wins :
  forall (num_parse : nat -> bytes -> span -> ParseResult Z)
         (_unit : bytes) (str1 str2 : span) (this : FieldRecord Z),
    let first := snd (IntField.parse num_parse _unit str1 this) in
    let again := IntField.parse num_parse _unit str2 first in
    let alone := IntField.parse num_parse _unit str2 this in
    fst again = to_void (num_parse 0 _unit str2)
    /\ fst alone = to_void (num_parse 0 _unit str2)
    /\ (err (fst alone) = None ->
        snd again = snd alone
        /\ val (snd again) = result (num_parse 0 _unit str2))
    /\ (err (fst alone) <> None -> snd again = first /\ snd alone = this).
Proof.
  intros num_parse _unit str1 str2 this first again alone.
  assert (P : present first = present this).
  { unfold first, IntField.parse.
    destruct (err (num_parse 0 _unit str1)); reflexivity. }
  unfold again, alone, IntField.parse.
  destruct (err (num_parse 0 _unit str2)) as [k|] eqn:E; simpl.
  - rewrite E. split; [reflexivity|split; [reflexivity|split]].
    + intros C; discriminate C.
    + intros _. now split.
  - rewrite E. unfold set_val. rewrite P. simpl.
    split; [reflexivity|split; [reflexivity|split]].
    + intros _. now split.
    + intros C. now contradiction C.
Qed.

(** ** TimestampedFixedField, for every pair of scanners *)

Section TimestampedFixedFieldAnyScanners.
Variable parse_string : nat -> nat -> span -> ParseResult WString.
Variable num_parse : nat -> bytes -> span -> ParseResult Z.

(** X7.  [TimestampedFixedField::parse] is [TimestampField::parse] followed by
    [FixedField::parse] at the cursor that the first returns: run on a
    String record with the timestamp and on a [FixedValue] record with the
    reading, the two leave what the one call leaves in the two members of
    its record, and the result is that of the stage that ended the
    parse. *)
Theorem TimestampedFixedField_is_Timestamp_then_Fixed :
  forall (_unit _int_unit : bytes) (str : span)
         (this : FieldRecord TimestampedFixedValue),
    let stamp := TimestampField.parse parse_string str
                   (mkFieldRecord (timestamp (val this)) (present this)) in
    let reading := FixedField.parse num_parse _unit _int_unit (next (fst stamp))
                     (mkFieldRecord (base (val this)) (present this)) in
    TimestampedFixedField.parse parse_string num_parse _unit _int_unit str this
    = match err (fst stamp) with
      | Some _ => (fst stamp, this)
      | None =>
          (fst reading,
           mkFieldRecord (mkTimestampedFixedValue (val (snd reading)) (val (snd stamp)))
                         (present this))
      end.
Proof.
  intros _unit _int_unit str this.
  unfold TimestampedFixedField.parse, TimestampField.parse, StringField.parse.
  destruct (err (parse_string 13 13 str)) as [k|] eqn:Ets; simpl; rewrite Ets.
  - reflexivity.
  - unfold FixedField.parse.
    destruct (err (num_parse 3 _unit (next (parse_string 13 13 str))));
      [destruct (err (num_parse 0 _int_unit (next (parse_string 13 13 str))))|];
      simpl; reflexivity.
Qed.

(** X8.  [TimestampedFixedField::parse] succeeds exactly when the timestamp
    scan succeeds and one of the two number attempts at its cursor does,
    and parsing the same span again changes nothing: the second call
    returns the result of the first and leaves its record, also where the
    first call failed behind a timestamp it had written. *)
Theorem TimestampedFixedField_parse_again :
  forall (_unit _int_unit : bytes) (str : span)
         (this : FieldRecord TimestampedFixedValue),
    let ts := parse_string 13 13 str in
    let out := TimestampedFixedField.parse parse_string num_parse
                 _unit _int_unit str this in
    (err (fst out) = None <->
     err ts = None
     /\ (err (num_parse 3 _unit (next ts)) = None
         \/ err (num_parse 0 _int_unit (next ts)) = None))
    /\ TimestampedFixedField.parse parse_string num_parse
         _unit _int_unit str (snd out) = out.
Proof.
  intros _unit _int_unit str this ts out.
  unfold out, TimestampedFixedField.parse. fold ts.
  destruct (err ts) as [k|] eqn:Ets; simpl.
  - rewrite Ets. split; [|reflexivity].
    split; [intros C; discriminate C | intros [C _]; discriminate C].
  - unfold FixedField.parse.
    destruct (err (num_parse 3 _unit (next ts))) as [kf|] eqn:Ef;
      [destruct (err (num_parse 0 _int_unit (next ts))) as [ki|] eqn:Ei|];
      simpl.
    + rewrite Ef. split; [|reflexivity].
      split; [intros C; discriminate C | intros [_ [C|C]]; discriminate C].
    + rewrite Ei. split; [|reflexivity].
      split; [intros _; split; [reflexivity | now right] | reflexivity].
    + rewrite Ef. split; [|reflexivity].
      split; [intros _; split; [reflexivity | now left] | reflexivity].
Qed.

End TimestampedFixedFieldAnyScanners.

(** ** The catalog once more *)

Lemma forallb_Forall {A} (f : A -> bool) (l : list A) :
  forallb f l = true -> Forall (fun x => f x = true) l.
Proof.
  intros E. apply Forall_forall. now apply forallb_forall.
Qed.

(** X10.  The 34 records of the catalog have 34 different names. *)
Theorem catalog_names_distinct :
  List.length fields.catalog = 34
  /\ NoDup (map fields.name fields.catalog).
Proof.
  split; [reflexivity|].
  assert (E : nodup string_dec (map fields.name fields.catalog)
              = map fields.name fields.catalog) by (vm_compute; reflexivity).
  rewrite <- E. apply NoDup_nodup.
Qed.

(** X11.  Every record of the catalog declares a slot of a type through which
    the [parse] of its field type can write: a String for [StringField],
    [TimestampField] and [RawField], a [FixedValue] for [FixedField].  No
    record uses [TimestampedFixedField] or [IntField]. *)
Theorem catalog_slots_match :
  Forall (fun entry =>
            slot_matches (fields.strategy entry) (fields.value_type entry) = true)
         fields.catalog
  /\ Forall (fun entry =>
               fields.strategy entry <> fields.TimestampedFixedField_t
               /\ fields.strategy entry <> fields.IntField_t
               /\ fields.value_type entry <> fields.TimestampedFixedValue_t
               /\ fields.value_type entry <> fields.uint32_t)
            fields.catalog.
Proof.
  split.
  - apply forallb_Forall. reflexivity.
  - unfold fields.catalog. repeat constructor; discriminate.
Qed.

(** X12.  Every [StringField] record of the catalog gives its field type two
    lengths, [minlen] no greater than [maxlen], and no [maxlen] is over
    2048: each of them accepts tokens of some length. *)
Theorem catalog_string_bounds :
  Forall (fun entry =>
            uses_StringField entry = true ->
            exists minlen maxlen,
              string_bounds entry = Some (minlen, maxlen)
              /\ minlen <= maxlen <= 2048)
         fields.catalog.
Proof.
  assert (B : forallb (fun entry =>
                negb (uses_StringField entry)
                || match string_bounds entry with
                   | Some (minlen, maxlen) => (minlen <=? maxlen) && (maxlen <=? 2048)
                   | None => false
                   end) fields.catalog = true) by (vm_compute; reflexivity).
  apply forallb_Forall in B. revert B. apply Forall_impl.
  intros entry E U. rewrite U in E. simpl in E.
  destruct (string_bounds entry) as [[minlen maxlen]|]; [|discriminate].
  exists minlen, maxlen. split; [reflexivity|].
  apply andb_true_iff in E as [E1 E2].
  apply Nat.leb_le in E1, E2. lia.
Qed.

(** X13.  The two units of a [FixedField] record name a quantity and its
    thousandth, which is what storing the float form times 1000 and the
    integer form as it is relies on: the large label is the small one
    behind a [k] (kWh/Wh, kW/W) or the small label the large one behind
    an [m] (V/mV, A/mA).  The records that bind two units and break this
    are [total_imported_energy] and [total_exported_energy], with kvarh
    for both. *)
Theorem catalog_units_thousandth :
  filter (fun entry =>
            fields.uses_FixedField entry && fields.binds_both_units entry
            && negb (units_thousandth entry))
         fields.catalog
  = [fields.total_imported_energy; fields.total_exported_energy]
  /\ fields.unit fields.total_imported_energy
     = fields.int_unit fields.total_imported_energy
  /\ fields.unit fields.total_exported_energy
     = fields.int_unit fields.total_exported_energy.
Proof. repeat split. Qed.
